(** * Mueller matrices of mitsuba2: include/mitsuba/render/mueller.h

    A shallow embedding of the polarization utilities of [mueller.h] and
    the properties its specification states about them.

    The C++ code is a set of function templates over a scalar type
    [Float].  The embedding keeps that shape: every function is written
    once over a class [FloatOps] of the operations the code uses, and is
    then read at two scalar types:

    - [R], exact real arithmetic, where the algebraic identities of the
      specification are stated (rounding is not modelled);
    - [xfloat], the reals extended with a not-a-number value that every
      operation propagates, where the masked assignments that guard
      against NaN can be observed.

    Functions of mitsuba that [mueller.h] calls but does not define
    ([fresnel_polarized], [sincos_arg_diff], [coordinate_system],
    [unit_angle]) are parameters of the functions that call them. *)

From Stdlib Require Import Reals Lra Psatz Bool.

Set Implicit Arguments.
Open Scope R_scope.

(** ** Scalars *)

(** The operations [mueller.h] applies to a [Float]: literals, the field
    operations, [ek::sqrt], [ek::abs], [ek::sincos] and the comparisons
    that produce a mask. *)
Class FloatOps (F : Type) : Type := {
  lit   : R -> F;
  fadd  : F -> F -> F;
  fsub  : F -> F -> F;
  fmul  : F -> F -> F;
  fdiv  : F -> F -> F;
  fneg  : F -> F;
  fsqrt : F -> F;
  fabs  : F -> F;
  fsin  : F -> F;
  fcos  : F -> F;
  feqb  : F -> F -> bool;
  fltb  : F -> F -> bool
}.

Declare Scope float_scope.
Delimit Scope float_scope with fl.
Infix "+" := fadd : float_scope.
Infix "-" := fsub : float_scope.
Infix "*" := fmul : float_scope.
Infix "/" := fdiv : float_scope.
Notation "- x" := (fneg x) : float_scope.

(** [ek::select(mask, a, b)]; the masked assignment
    [ek::masked(x, mask) = v] is [select mask v x]. *)
Definition select {A : Type} (mask : bool) (a b : A) : A :=
  if mask then a else b.

(** [a > b] on scalars. *)
Definition fgtb {F} `{FloatOps F} (a b : F) : bool := fltb b a.

(** [ek::sqr] on scalars. *)
Definition fsqr {F} `{FloatOps F} (a : F) : F := (a * a)%fl.

(** [ek::sincos]. *)
Definition sincos {F} `{FloatOps F} (a : F) : F * F := (fsin a, fcos a).

(** The value of the single-precision literal [1e-8f], the float
    nearest to 1e-8: [11258999 / 2^50], a little below 1e-8.  It is the
    same number at every scalar type.  The other literals of mueller.h
    ([0], [1], [-1.f], [2.f], [.5f]) are exact. *)
Definition float_1e_8 : R := 11258999 / 1125899906842624.

(** *** Exact reals *)

Definition Reqb (a b : R) : bool := if Req_dec_T a b then true else false.
Definition Rltb (a b : R) : bool := if Rlt_dec a b then true else false.

#[export] Instance R_ops : FloatOps R := {|
  lit := fun r => r;
  fadd := Rplus; fsub := Rminus; fmul := Rmult; fdiv := Rdiv;
  fneg := Ropp; fsqrt := sqrt; fabs := Rabs; fsin := sin; fcos := cos;
  feqb := Reqb; fltb := Rltb
|}.

(** *** Reals with NaN

    [NaN] is absorbing for the arithmetic and every comparison with it
    is false.  It is also what a quotient by zero and the root of a
    negative number evaluate to: infinities are not told apart from NaN,
    and rounding is not modelled. *)
Inductive xfloat : Type :=
| Num (r : R)
| NaN.

Definition xlift1 (f : R -> R) (a : xfloat) : xfloat :=
  match a with
  | Num x => Num (f x)
  | NaN => NaN
  end.

Definition xlift2 (f : R -> R -> R) (a b : xfloat) : xfloat :=
  match a, b with
  | Num x, Num y => Num (f x y)
  | _, _ => NaN
  end.

Definition xcmp (f : R -> R -> bool) (a b : xfloat) : bool :=
  match a, b with
  | Num x, Num y => f x y
  | _, _ => false
  end.

Definition xdiv (a b : xfloat) : xfloat :=
  match a, b with
  | Num x, Num y => if Req_dec_T y 0 then NaN else Num (x / y)
  | _, _ => NaN
  end.

Definition xsqrt (a : xfloat) : xfloat :=
  match a with
  | Num x => if Rlt_dec x 0 then NaN else Num (sqrt x)
  | NaN => NaN
  end.

#[export] Instance xfloat_ops : FloatOps xfloat := {|
  lit := Num;
  fadd := xlift2 Rplus; fsub := xlift2 Rminus; fmul := xlift2 Rmult;
  fdiv := xdiv;
  fneg := xlift1 Ropp; fsqrt := xsqrt; fabs := xlift1 Rabs;
  fsin := xlift1 sin; fcos := xlift1 cos;
  feqb := xcmp Reqb; fltb := xcmp Rltb
|}.

(** ** Complex numbers, vectors and matrices (enoki) *)

(** [ek::Complex<Float>]. *)
Record Complex (F : Type) : Type := mkComplex { re : F; im : F }.

(** [Vector3]. *)
Record Vector3 (F : Type) : Type := mkVector3 { vx : F; vy : F; vz : F }.

(** [MuellerMatrix<Float>], a 4x4 matrix; the constructor takes the
    entries row by row, as the C++ one does. *)
Record MuellerMatrix (F : Type) : Type := mkMueller {
  m00 : F; m01 : F; m02 : F; m03 : F;
  m10 : F; m11 : F; m12 : F; m13 : F;
  m20 : F; m21 : F; m22 : F; m23 : F;
  m30 : F; m31 : F; m32 : F; m33 : F
}.

(** Row and column indices. *)
Inductive idx : Type := I0 | I1 | I2 | I3.

(** [M(i, j)]. *)
Definition coeff {F} (M : MuellerMatrix F) (i j : idx) : F :=
  match i, j with
  | I0, I0 => m00 M | I0, I1 => m01 M | I0, I2 => m02 M | I0, I3 => m03 M
  | I1, I0 => m10 M | I1, I1 => m11 M | I1, I2 => m12 M | I1, I3 => m13 M
  | I2, I0 => m20 M | I2, I1 => m21 M | I2, I2 => m22 M | I2, I3 => m23 M
  | I3, I0 => m30 M | I3, I1 => m31 M | I3, I2 => m32 M | I3, I3 => m33 M
  end.

(** The matrix whose entry [(i, j)] is [f i j]. *)
Definition build {F} (f : idx -> idx -> F) : MuellerMatrix F :=
  mkMueller
    (f I0 I0) (f I0 I1) (f I0 I2) (f I0 I3)
    (f I1 I0) (f I1 I1) (f I1 I2) (f I1 I3)
    (f I2 I0) (f I2 I1) (f I2 I2) (f I2 I3)
    (f I3 I0) (f I3 I1) (f I3 I2) (f I3 I3).

Section Enoki.
Context {F : Type} `{FloatOps F}.
Local Open Scope float_scope.

(** Complex product, [ek::sqr], [ek::abs] (the norm) and [real]. *)
Definition cmul (z w : Complex F) : Complex F :=
  mkComplex (re z * re w - im z * im w) (re z * im w + im z * re w).

Definition csqr (z : Complex F) : Complex F := cmul z z.

Definition cabs (z : Complex F) : F :=
  fsqrt (re z * re z + im z * im z).

Definition real (z : Complex F) : F := re z.

(** [ek::dot], [ek::cross], [ek::norm] and [ek::normalize]. *)
Definition dot (a b : Vector3 F) : F :=
  vx a * vx b + vy a * vy b + vz a * vz b.

Definition cross (a b : Vector3 F) : Vector3 F :=
  mkVector3 (vy a * vz b - vz a * vy b)
            (vz a * vx b - vx a * vz b)
            (vx a * vy b - vy a * vx b).

Definition norm (a : Vector3 F) : F := fsqrt (dot a a).

Definition normalize (a : Vector3 F) : Vector3 F :=
  mkVector3 (vx a / norm a) (vy a / norm a) (vz a / norm a).

(** Matrix product and transpose. *)
Definition mmul (A B : MuellerMatrix F) : MuellerMatrix F :=
  build (fun i j =>
    coeff A i I0 * coeff B I0 j + coeff A i I1 * coeff B I1 j
    + coeff A i I2 * coeff B I2 j + coeff A i I3 * coeff B I3 j).

Definition transpose (A : MuellerMatrix F) : MuellerMatrix F :=
  build (fun i j => coeff A j i).

(** The identity matrix and the matrix a scalar converts to. *)
Definition identity : MuellerMatrix F :=
  build (fun i j =>
    match i, j with
    | I0, I0 | I1, I1 | I2, I2 | I3, I3 => lit 1
    | _, _ => lit 0
    end).

Definition of_scalar (value : F) : MuellerMatrix F :=
  build (fun i j =>
    match i, j with
    | I0, I0 | I1, I1 | I2, I2 | I3, I3 => value
    | _, _ => lit 0
    end).

Definition zero : MuellerMatrix F := build (fun _ _ => lit 0).
End Enoki.

Declare Scope mueller_scope.
Delimit Scope mueller_scope with mu.
Infix "*" := mmul : mueller_scope.

(** ** mueller.h *)

Section Mueller.
Context {F : Type} `{FloatOps F}.
Local Open Scope float_scope.

(** Ideal depolarizer: zero except for the entry (0, 0). *)
Definition depolarizer (value : F) : MuellerMatrix F :=
  build (fun i j =>
    match i, j with
    | I0, I0 => value
    | _, _ => coeff zero i j
    end).

(** Ideal absorber: the scalar converted to a matrix. *)
Definition absorber (value : F) : MuellerMatrix F := of_scalar value.

(** Linear polarizer transmitting linear polarization at 0 degrees. *)
Definition linear_polarizer (value : F) : MuellerMatrix F :=
  let a := value * lit 0.5 in
  mkMueller
    a a (lit 0) (lit 0)
    a a (lit 0) (lit 0)
    (lit 0) (lit 0) (lit 0) (lit 0)
    (lit 0) (lit 0) (lit 0) (lit 0).

(** Linear retarder with its fast axis aligned vertically. *)
Definition linear_retarder (phase : F) : MuellerMatrix F :=
  let '(s, c) := sincos phase in
  mkMueller
    (lit 1) (lit 0) (lit 0) (lit 0)
    (lit 0) (lit 1) (lit 0) (lit 0)
    (lit 0) (lit 0) c (- s)
    (lit 0) (lit 0) s c.

(** Linear diattenuator. *)
Definition diattenuator (x y : F) : MuellerMatrix F :=
  let a := lit 0.5 * (x + y) in
  let b := lit 0.5 * (x - y) in
  let c := fsqrt (x * y) in
  mkMueller
    a b (lit 0) (lit 0)
    b a (lit 0) (lit 0)
    (lit 0) (lit 0) c (lit 0)
    (lit 0) (lit 0) (lit 0) c.

(** Ideal rotator: rotates the reference frame of a Stokes vector. *)
Definition rotator (theta : F) : MuellerMatrix F :=
  let '(s, c) := sincos (lit 2 * theta) in
  mkMueller
    (lit 1) (lit 0) (lit 0) (lit 0)
    (lit 0) c s (lit 0)
    (lit 0) (- s) c (lit 0)
    (lit 0) (lit 0) (lit 0) (lit 1).

(** Rotation of the Mueller matrix of an element. *)
Definition rotated_element (theta : F) (M : MuellerMatrix F)
  : MuellerMatrix F :=
  let R := rotator theta in
  let Rt := transpose R in
  (Rt * M * R)%mu.

(** The constant matrix [reverse] multiplies with. *)
Definition reverse_matrix : MuellerMatrix F :=
  mkMueller
    (lit 1) (lit 0) (lit 0) (lit 0)
    (lit 0) (lit 1) (lit 0) (lit 0)
    (lit 0) (lit 0) (lit (-1)) (lit 0)
    (lit 0) (lit 0) (lit 0) (lit (-1)).

(** Reversal of the direction of propagation. *)
Definition reverse (M : MuellerMatrix F) : MuellerMatrix F :=
  (reverse_matrix * M)%mu.

(** *** Interaction with an interface *)

(** What [fresnel_polarized] returns:
    [(a_s, a_p, cos_theta_t, eta_it, eta_ti)]. *)
Definition Fresnel : Type := Complex F * Complex F * F * F * F.

(** The reflectance [ek::abs(ek::sqr(a))] of an amplitude. *)
Definition reflectance (a : Complex F) : F := cabs (csqr a).

(** The joint reflectance [c] of [specular_reflection]. *)
Definition joint_reflectance (a_s a_p : Complex F) : F :=
  fsqrt (reflectance a_s * reflectance a_p).

(** The unit conversion factor of [specular_transmission]. *)
Definition transmission_factor (cos_theta_i cos_theta_t eta_it : F) : F :=
  - eta_it * select (fgtb (fabs cos_theta_i) (lit float_1e_8))
                    (cos_theta_t / cos_theta_i) (lit 0).

Section Interaction.
Variable Eta : Type.
Variable fresnel_polarized : F -> Eta -> Fresnel.
Variable sincos_arg_diff : Complex F -> Complex F -> F * F.

(** Mueller matrix of a specular reflection. *)
Definition specular_reflection (cos_theta_i : F) (eta : Eta)
    : MuellerMatrix F :=
    let '(a_s, a_p, _, _, _) := fresnel_polarized cos_theta_i eta in
    let '(sin_delta, cos_delta) := sincos_arg_diff a_s a_p in
    let r_s := reflectance a_s in
    let r_p := reflectance a_p in
    let a := lit 0.5 * (r_s + r_p) in
    let b := lit 0.5 * (r_s - r_p) in
    let c := joint_reflectance a_s a_p in
    let sin_delta := select (feqb c (lit 0)) (lit 0) sin_delta in
    let cos_delta := select (feqb c (lit 0)) (lit 0) cos_delta in
    mkMueller
      a b (lit 0) (lit 0)
      b a (lit 0) (lit 0)
      (lit 0) (lit 0) (c * cos_delta) (c * sin_delta)
      (lit 0) (lit 0) (- c * sin_delta) (c * cos_delta).

(** Mueller matrix of a specular transmission. *)
Definition specular_transmission (cos_theta_i : F) (eta : Eta)
    : MuellerMatrix F :=
    let '(a_s, a_p, cos_theta_t, eta_it, eta_ti) :=
      fresnel_polarized cos_theta_i eta in
    let factor := transmission_factor cos_theta_i cos_theta_t eta_it in
    let a_s_r := real a_s + lit 1 in
    let a_p_r := (lit 1 - real a_p) * eta_ti in
    let t_s := fsqr a_s_r in
    let t_p := fsqr a_p_r in
    let a := lit 0.5 * factor * (t_s + t_p) in
    let b := lit 0.5 * factor * (t_s - t_p) in
    let c := factor * fsqrt (t_s * t_p) in
    mkMueller
      a b (lit 0) (lit 0)
      b a (lit 0) (lit 0)
      (lit 0) (lit 0) c (lit 0)
      (lit 0) (lit 0) (lit 0) c.
End Interaction.

(** *** Reference frames *)

Section Frames.
Variable coordinate_system : Vector3 F -> Vector3 F * Vector3 F.
Variable unit_angle : Vector3 F -> Vector3 F -> F.

(** Reference basis of a Stokes vector travelling along [w]. *)
Definition stokes_basis (w : Vector3 F) : Vector3 F :=
    let '(s, t) := coordinate_system w in s.

(** The angle [rotate_stokes_basis] passes to [rotator]. *)
Definition stokes_basis_angle (forward basis_current basis_target
                                   : Vector3 F) : F :=
    let theta :=
      unit_angle (normalize basis_current) (normalize basis_target) in
    select (fltb (dot forward (cross basis_current basis_target)) (lit 0))
           (theta * lit (-1)) theta.

(** Alignment of the reference frames of two collinear Stokes
      vectors. *)
Definition rotate_stokes_basis (forward basis_current basis_target
                                    : Vector3 F) : MuellerMatrix F :=
    rotator (stokes_basis_angle forward basis_current basis_target).

(** Change of the reference frames of a Mueller matrix, input and
      output frame rotated independently. *)
Definition rotate_mueller_basis (M : MuellerMatrix F)
      (in_forward in_basis_current in_basis_target
       out_forward out_basis_current out_basis_target : Vector3 F)
    : MuellerMatrix F :=
    let R_in :=
      rotate_stokes_basis in_forward in_basis_current in_basis_target in
    let R_out :=
      rotate_stokes_basis out_forward out_basis_current out_basis_target in
    (R_out * M * transpose R_in)%mu.

(** The same with one rotation for both frames. *)
Definition rotate_mueller_basis_collinear (M : MuellerMatrix F)
      (forward basis_current basis_target : Vector3 F)
    : MuellerMatrix F :=
    let R := rotate_stokes_basis forward basis_current basis_target in
    (R * M * transpose R)%mu.
End Frames.
End Mueller.



(** ** Stokes vectors and the shape of matrices *)

Section Shapes.
Context {F : Type} `{FloatOps F}.

(** A Stokes vector is stored as a Mueller matrix of which only the
    first column is populated. *)
Definition stokes (s0 s1 s2 s3 : F) : MuellerMatrix F :=
  mkMueller
    s0 (lit 0) (lit 0) (lit 0)
    s1 (lit 0) (lit 0) (lit 0)
    s2 (lit 0) (lit 0) (lit 0)
    s3 (lit 0) (lit 0) (lit 0).

(** The representation invariant of a Stokes vector: the columns 1 to 3
    are zero. *)
Definition is_stokes (S : MuellerMatrix F) : Prop :=
  forall i : idx,
    coeff S i I1 = lit 0 /\ coeff S i I2 = lit 0 /\ coeff S i I3 = lit 0.

(** The diagonal matrix with the given diagonal. *)
Definition diag (d0 d1 d2 d3 : F) : MuellerMatrix F :=
  mkMueller
    d0 (lit 0) (lit 0) (lit 0)
    (lit 0) d1 (lit 0) (lit 0)
    (lit 0) (lit 0) d2 (lit 0)
    (lit 0) (lit 0) (lit 0) d3.
End Shapes.

Definition idx_eqb (i j : idx) : bool :=
  match i, j with
  | I0, I0 | I1, I1 | I2, I2 | I3, I3 => true
  | _, _ => false
  end.

(** Whether the entry [(i, j)] lies in the 2x2 block on the rows and
    columns [p] and [q]. *)
Definition in_block (p q i j : idx) : bool :=
  (idx_eqb i p || idx_eqb i q) && (idx_eqb j p || idx_eqb j q).

(** Modelled from the spec: [unit_angle] of mitsuba/core/vector.h, which
    [rotate_stokes_basis] calls and which is not part of mueller.h; the
    specification describes it as the angle between two unit vectors. *)
Definition unit_angle_spec (a b : Vector3 R) : R := acos (dot a b).

(** ** Collaborators of the examples

    Constant functions standing for [fresnel_polarized] and
    [sincos_arg_diff] where a statement is instantiated at a concrete
    interface. *)

(** An interface of relative index 1.5 seen at normal incidence: both
    amplitudes have the modulus [(1.5 - 1) / (1.5 + 1) = 0.2]. *)
Definition fresnel_glass (cos_theta_i eta : R) : Fresnel :=
  (mkComplex (-0.2) 0, mkComplex 0.2 0, 1, / 1.5, 1.5).

(** The amplitudes of [fresnel_glass] differ in phase by the angle pi. *)
Definition sincos_arg_diff_glass (a_s a_p : Complex R) : R * R := (0, -1).

(** An interface that absorbs the s-polarized component entirely. *)
Definition fresnel_absorbing (cos_theta_i eta : xfloat) : Fresnel :=
  (mkComplex (Num 0) (Num 0), mkComplex (Num 1) (Num 0),
   Num 1, Num 1, Num 1).

(** A phase difference that could not be computed. *)
Definition sincos_arg_diff_undefined (a_s a_p : Complex xfloat)
  : xfloat * xfloat := (NaN, NaN).

(** ** Bases given by an angle

    The vector of length [r] in the plane orthogonal to [forward] that
    makes the angle [a] with [u], measured from [u] towards
    [cross forward u]. *)
Definition basis_at (forward u : Vector3 R) (r a : R) : Vector3 R :=
  let v := cross forward u in
  mkVector3 (r * (cos a * vx u + sin a * vx v))
            (r * (cos a * vy u + sin a * vy v))
            (r * (cos a * vz u + sin a * vz v)).

(** ** Matrix algebra over the exact reals *)

Lemma mueller_ext {F : Type} (A B : MuellerMatrix F) :
  (forall i j, coeff A i j = coeff B i j) -> A = B.
Proof.
  intros E. destruct A, B.
  pose proof (E I0 I0); pose proof (E I0 I1);
    pose proof (E I0 I2); pose proof (E I0 I3).
  pose proof (E I1 I0); pose proof (E I1 I1);
    pose proof (E I1 I2); pose proof (E I1 I3).
  pose proof (E I2 I0); pose proof (E I2 I1);
    pose proof (E I2 I2); pose proof (E I2 I3).
  pose proof (E I3 I0); pose proof (E I3 I1);
    pose proof (E I3 I2); pose proof (E I3 I3).
  cbn in *. subst. reflexivity.
Qed.

(** Entry-wise proof of an equation between matrices over [R]: [tac]
    closes each of the sixteen scalar goals. *)
Tactic Notation "by_entries" tactic(tac) :=
  apply mueller_ext; intros i j; destruct i, j; cbn; tac.

Lemma mmul_assoc (A B C : MuellerMatrix R) :
  (A * B * C)%mu = (A * (B * C))%mu.
Proof. destruct A, B, C. by_entries ring. Qed.

Lemma mmul_identity_l (A : MuellerMatrix R) : (identity * A)%mu = A.
Proof. destruct A. by_entries ring. Qed.

Lemma mmul_identity_r (A : MuellerMatrix R) : (A * identity)%mu = A.
Proof. destruct A. by_entries ring. Qed.

Lemma sincos_unit (x : R) : sin x * sin x + cos x * cos x = 1.
Proof. exact (sin2_cos2 x). Qed.

Lemma rotator_0 : rotator 0 = identity.
Proof.
  unfold rotator, sincos; cbn.
  replace (2 * 0) with 0 by ring. rewrite sin_0, cos_0.
  by_entries ring.
Qed.

Lemma rotator_neg (theta : R) : rotator (- theta) = transpose (rotator theta).
Proof.
  unfold rotator, sincos; cbn.
  replace (2 * - theta) with (- (2 * theta)) by ring.
  rewrite sin_neg, cos_neg. by_entries ring.
Qed.

Lemma rotator_transpose_l (theta : R) :
  (transpose (rotator theta) * rotator theta)%mu = identity.
Proof.
  unfold rotator, sincos; cbn.
  pose proof (sincos_unit (2 * theta)).
  by_entries lra.
Qed.

Lemma rotator_transpose_r (theta : R) :
  (rotator theta * transpose (rotator theta))%mu = identity.
Proof.
  unfold rotator, sincos; cbn.
  pose proof (sincos_unit (2 * theta)).
  by_entries lra.
Qed.

Lemma transpose_involutive {F : Type} (A : MuellerMatrix F) :
  transpose (transpose A) = A.
Proof. destruct A. reflexivity. Qed.

(** ** The rotator (exact reals) *)

(** C2: a rotator is undone by the rotator of the opposite angle; an
    element rotated by the angle 0 is unchanged, and rotating an element
    by [- theta] and then by [theta] gives the element back. *)
Theorem rotator_inverse_rotated_element (theta : R) (M : MuellerMatrix R) :
  (rotator theta * rotator (- theta))%mu = identity
  /\ rotated_element 0 M = M
  /\ rotated_element theta (rotated_element (- theta) M) = M.
Proof.
  split; [| split].
  - rewrite rotator_neg. apply rotator_transpose_r.
  - unfold rotated_element. rewrite rotator_0.
    replace (transpose identity) with (identity (F := R)) by reflexivity.
    rewrite mmul_identity_l. apply mmul_identity_r.
  - unfold rotated_element. rewrite rotator_neg, transpose_involutive.
    set (R0 := rotator theta). set (Rt := transpose R0).
    replace (Rt * (R0 * M * Rt) * R0)%mu
      with ((Rt * R0) * M * (Rt * R0))%mu
      by (rewrite !mmul_assoc; reflexivity).
    unfold Rt, R0. rewrite rotator_transpose_l.
    rewrite mmul_identity_l. apply mmul_identity_r.
Qed.

Lemma rotator_quarter_pi_11 : coeff (rotator (PI / 4)) I1 I1 = 0.
Proof.
  unfold rotator, sincos; cbn.
  replace (2 * (PI / 4)) with (PI / 2) by field. apply cos_PI2.
Qed.

(** C3, as stated: the block of [rotator] would lie on the rows and
    columns 2 and 3.  It does not: at [theta = PI / 4] the entry (1, 1),
    which is outside that block, is [cos (PI / 2) = 0] and not the 1 of
    the identity. *)
Lemma rotator_block_23_counterexample :
  ~ (forall (theta : R) (i j : idx),
        in_block I2 I3 i j = false ->
        coeff (rotator theta) i j = coeff identity i j).
Proof.
  intros claim.
  specialize (claim (PI / 4) I1 I1 eq_refl).
  rewrite rotator_quarter_pi_11 in claim. cbn in claim. lra.
Qed.

(** C3, amended: [rotator theta] is the identity except for the rotation
    block built from [sin (2 theta)] and [cos (2 theta)] on the rows and
    columns 1 and 2, the two linear components of the Stokes vector; row
    and column 3, the circular component, are those of the identity. *)
Theorem rotator_block_12 (theta : R) (i j : idx) :
  coeff (rotator theta) i j =
    match i, j with
    | I1, I1 => cos (2 * theta)
    | I1, I2 => sin (2 * theta)
    | I2, I1 => - sin (2 * theta)
    | I2, I2 => cos (2 * theta)
    | _, _ => coeff identity i j
    end.
Proof. destruct i, j; reflexivity. Qed.

(** The example of the documentation of [rotator]: horizontally
    polarized light [1, 1, 0, 0] looks like -45 degree polarized light
    [1, 0, -1, 0] after a rotator of +45 degrees. *)
Example rotator_doc_example :
  (rotator (PI / 4) * stokes 1 1 0 0)%mu = stokes 1 0 (-1) 0.
Proof.
  unfold rotator, sincos; cbn.
  replace (2 * (PI / 4)) with (PI / 2) by field.
  rewrite sin_PI2, cos_PI2. by_entries ring.
Qed.

(** An ideal polarizer lets half of unpolarized light through, fully
    horizontally polarized. *)
Example linear_polarizer_unpolarized :
  (linear_polarizer 1 * stokes 1 0 0 0)%mu = stokes 0.5 0.5 0 0.
Proof. by_entries lra. Qed.

(** A diattenuator that attenuates neither component is the identity. *)
Example diattenuator_1_1 : diattenuator 1 1 = identity.
Proof.
  unfold diattenuator; cbn.
  replace (1 * 1) with 1 by ring. rewrite sqrt_1.
  by_entries lra.
Qed.

(** ** Reversal, retarders and Stokes vectors (exact reals) *)

(** C7: [reverse M] is [diag (1, 1, -1, -1) * M], which negates the rows
    2 and 3 of [M] and keeps the rows 0 and 1; reversing twice gives [M]
    back. *)
Theorem reverse_diag_involutive (M : MuellerMatrix R) :
  reverse M = (diag 1 1 (-1) (-1) * M)%mu
  /\ reverse M =
       mkMueller
         (m00 M) (m01 M) (m02 M) (m03 M)
         (m10 M) (m11 M) (m12 M) (m13 M)
         (- m20 M) (- m21 M) (- m22 M) (- m23 M)
         (- m30 M) (- m31 M) (- m32 M) (- m33 M)
  /\ reverse (reverse M) = M.
Proof.
  destruct M. split; [reflexivity | split].
  - unfold reverse, reverse_matrix. by_entries ring.
  - unfold reverse, reverse_matrix. by_entries ring.
Qed.

Lemma linear_retarder_PI : linear_retarder PI = diag 1 1 (-1) (-1).
Proof.
  unfold linear_retarder, sincos; cbn. rewrite sin_PI, cos_PI.
  by_entries ring.
Qed.

(** C9: the half-wave plate [linear_retarder PI] maps the Stokes vector
    [1, 0, 1, 0] to [1, 0, -1, 0], and applied twice it maps every Stokes
    vector to itself. *)
Theorem half_wave_plate (s0 s1 s2 s3 : R) :
  (linear_retarder PI * stokes 1 0 1 0)%mu = stokes 1 0 (-1) 0
  /\ (linear_retarder PI * (linear_retarder PI * stokes s0 s1 s2 s3))%mu
     = stokes s0 s1 s2 s3.
Proof.
  rewrite linear_retarder_PI. split.
  - by_entries ring.
  - by_entries ring.
Qed.

(** C10: the product of any Mueller matrix with a matrix whose columns
    1 to 3 are zero has its columns 1 to 3 zero again. *)
Theorem mmul_preserves_stokes (M S : MuellerMatrix R) :
  is_stokes S -> is_stokes (M * S)%mu.
Proof.
  intros HS i.
  destruct (HS I0) as (a1 & a2 & a3), (HS I1) as (b1 & b2 & b3),
    (HS I2) as (c1 & c2 & c3), (HS I3) as (d1 & d2 & d3).
  destruct M, S; cbn in *; subst.
  destruct i; cbn; repeat split; ring.
Qed.

Lemma mmul_preserves_stokes_witness :
  is_stokes (stokes 1 0 1 0)
  /\ is_stokes (linear_polarizer 1 * stokes 1 0 1 0)%mu.
Proof.
  assert (HS : is_stokes (stokes 1 0 1 0))
    by (intros i; destruct i; cbn; repeat split; reflexivity).
  split; [exact HS |].
  exact (@mmul_preserves_stokes (linear_polarizer 1) (stokes 1 0 1 0) HS).
Defined.

(** ** Change of reference frames *)

(** C8: with the same frame arguments on the input and the output side,
    [rotate_mueller_basis] is [rotate_mueller_basis_collinear], and both
    are [R * M * transpose R] for the one matrix [R] that
    [rotate_stokes_basis] returns.  This holds at every scalar type and
    for every [unit_angle]. *)
Theorem rotate_mueller_basis_collinear_spec
    (F : Type) (ops : FloatOps F)
    (unit_angle : Vector3 F -> Vector3 F -> F)
    (M : MuellerMatrix F) (forward basis_current basis_target : Vector3 F) :
  let R := rotate_stokes_basis unit_angle forward basis_current basis_target
  in
  rotate_mueller_basis unit_angle M forward basis_current basis_target
                       forward basis_current basis_target
  = rotate_mueller_basis_collinear unit_angle M forward basis_current
                                   basis_target
  /\ rotate_mueller_basis_collinear unit_angle M forward basis_current
                                    basis_target
     = (R * M * transpose R)%mu.
Proof. split; reflexivity. Qed.

(** ** Alignment of Stokes bases (exact reals) *)

Lemma dot_self_pos (a : Vector3 R) :
  a <> mkVector3 0 0 0 -> 0 < dot a a.
Proof.
  destruct a as [x y z]. intros Ha. unfold dot; cbn.
  destruct (Rlt_dec 0 (x * x + y * y + z * z)) as [Hpos | Hneg];
    [exact Hpos |].
  exfalso. apply Ha.
  assert (x = 0) by nra. assert (y = 0) by nra. assert (z = 0) by nra.
  subst. reflexivity.
Qed.

Lemma normalize_unit (a : Vector3 R) :
  a <> mkVector3 0 0 0 -> dot (normalize a) (normalize a) = 1.
Proof.
  intros Ha. pose proof (dot_self_pos Ha) as Hpos.
  assert (Hn : norm a * norm a = dot a a)
    by (apply sqrt_sqrt, Rlt_le; exact Hpos).
  assert (Hn0 : norm a <> 0)
    by (intros E; rewrite E, Rmult_0_l in Hn; rewrite <- Hn in Hpos;
        exact (Rlt_irrefl 0 Hpos)).
  destruct a as [x y z]. unfold normalize, dot in *; cbn in *.
  set (n := sqrt _) in *.
  replace (x / n * (x / n) + y / n * (y / n) + z / n * (z / n))
    with ((x * x + y * y + z * z) / (n * n)) by (field; exact Hn0).
  rewrite Hn. field. lra.
Qed.

Lemma Rmult_comm_opp_1 (x : R) : x * -1 = - x.
Proof. ring. Qed.

Lemma triple_product_self (forward b : Vector3 R) :
  dot forward (cross b b) = 0.
Proof. destruct forward, b. unfold dot, cross; cbn. ring. Qed.

(** C1: [rotate_stokes_basis] returns the rotator of the angle that
    [unit_angle] gives for the normalized bases, negated exactly when the
    triple product [forward . (basis_current x basis_target)] is negative;
    when [unit_angle] gives 0 for a unit vector and itself, a non-zero
    basis is aligned with itself by the identity matrix.  Neither part
    needs [forward] to be a unit vector or the bases to be orthogonal to
    it. *)
Theorem rotate_stokes_basis_spec
    (unit_angle : Vector3 R -> Vector3 R -> R)
    (forward basis_current basis_target : Vector3 R) :
  (forall a : Vector3 R, dot a a = 1 -> unit_angle a a = 0) ->
  basis_current <> mkVector3 0 0 0 ->
  let theta :=
    unit_angle (normalize basis_current) (normalize basis_target) in
  rotate_stokes_basis unit_angle forward basis_current basis_target
  = rotator (if Rlt_dec (dot forward (cross basis_current basis_target)) 0
             then - theta else theta)
  /\ rotate_stokes_basis unit_angle forward basis_current basis_current
     = identity.
Proof.
  intros Hangle Hb theta. split.
  - unfold rotate_stokes_basis, stokes_basis_angle, select; cbn.
    unfold Rltb. destruct (Rlt_dec _ 0).
    + rewrite Rmult_comm_opp_1. reflexivity.
    + reflexivity.
  - unfold rotate_stokes_basis, stokes_basis_angle.
    rewrite triple_product_self.
    rewrite Hangle by (apply normalize_unit; exact Hb).
    unfold select; cbn [fltb lit R_ops]. unfold Rltb.
    destruct (Rlt_dec 0 0) as [Hlt | _]; [lra |].
    apply rotator_0.
Qed.

Lemma unit_angle_spec_self (a : Vector3 R) :
  dot a a = 1 -> unit_angle_spec a a = 0.
Proof. intros Ha. unfold unit_angle_spec. rewrite Ha. apply acos_1. Qed.

Lemma rotate_stokes_basis_spec_witness :
  (forall a : Vector3 R, dot a a = 1 -> unit_angle_spec a a = 0)
  /\ mkVector3 1 0 0 <> mkVector3 0 0 0
  /\ rotate_stokes_basis unit_angle_spec (mkVector3 0 0 1) (mkVector3 1 0 0)
        (mkVector3 0 1 0)
      = rotator
          (if Rlt_dec (dot (mkVector3 0 0 1)
                           (cross (mkVector3 1 0 0) (mkVector3 0 1 0))) 0
           then - unit_angle_spec (normalize (mkVector3 1 0 0))
                                  (normalize (mkVector3 0 1 0))
           else unit_angle_spec (normalize (mkVector3 1 0 0))
                                (normalize (mkVector3 0 1 0)))
  /\ rotate_stokes_basis unit_angle_spec (mkVector3 0 0 1) (mkVector3 1 0 0)
        (mkVector3 1 0 0)
      = identity.
Proof.
  assert (Hb : mkVector3 1 0 0 <> mkVector3 0 0 0).
  { intros E. apply (f_equal (@vx R)) in E. cbn in E. lra. }
  split; [exact unit_angle_spec_self | split; [exact Hb |]].
  exact (@rotate_stokes_basis_spec unit_angle_spec (mkVector3 0 0 1)
           (mkVector3 1 0 0) (mkVector3 0 1 0) unit_angle_spec_self Hb).
Defined.

(** ** Specular transmission (exact reals) *)

Lemma float_1e_8_bounds : 0 < float_1e_8 < 1e-8.
Proof. unfold float_1e_8. lra. Qed.

Lemma transmission_factor_above (cos_theta_i cos_theta_t eta_it : R) :
  Rabs cos_theta_i > float_1e_8 ->
  transmission_factor cos_theta_i cos_theta_t eta_it
  = - eta_it * (cos_theta_t / cos_theta_i).
Proof.
  intros Hgt. unfold transmission_factor, fgtb, select; cbn. unfold Rltb.
  destruct (Rlt_dec _ _) as [_ | Hn]; [reflexivity | now elim Hn].
Qed.

Lemma transmission_factor_below (cos_theta_i cos_theta_t eta_it : R) :
  Rabs cos_theta_i <= float_1e_8 ->
  transmission_factor cos_theta_i cos_theta_t eta_it = 0.
Proof.
  intros Hle. unfold transmission_factor, fgtb, select; cbn. unfold Rltb.
  destruct (Rlt_dec _ _) as [Hlt | _]; [lra | ring].
Qed.

(** C5, as stated: the factor would be 0 and the matrix the zero matrix
    whenever [|cos_theta_i| <= 1e-8].  The code compares with the literal
    [1e-8f], which is below 1e-8: at [cos_theta_i = 1e-8], between the
    two, the quotient is selected, the factor is
    [- eta_it * (cos_theta_t / 1e-8)] and the matrix is not zero. *)
Lemma specular_transmission_threshold_counterexample :
  Rabs 1e-8 <= 1e-8
  /\ transmission_factor 1e-8 1 (/ 1.5) = - / 1.5 * (1 / 1e-8)
  /\ transmission_factor 1e-8 1 (/ 1.5) <> 0
  /\ specular_transmission fresnel_glass 1e-8 1.5 <> zero.
Proof.
  assert (Habs : Rabs 1e-8 = 1e-8) by (apply Rabs_right; lra).
  assert (Hgt : Rabs 1e-8 > float_1e_8)
    by (rewrite Habs; apply float_1e_8_bounds).
  assert (Hf : transmission_factor 1e-8 1 (/ 1.5) = - / 1.5 * (1 / 1e-8))
    by (apply transmission_factor_above; exact Hgt).
  split; [rewrite Habs; lra | split; [exact Hf | split]].
  - rewrite Hf. lra.
  - intros E. apply (f_equal (@m00 R)) in E.
    unfold specular_transmission, fresnel_glass in E.
    rewrite Hf in E. cbn in E. lra.
Qed.

(** C5, amended: every entry of the matrix [specular_transmission]
    returns is scaled by the unit conversion factor; the factor is
    [- eta_it * (cos_theta_t / cos_theta_i)] when [|cos_theta_i|] is above
    the literal [1e-8f]; otherwise the quotient, which [ek::select] has
    evaluated all the same, is discarded, the factor is 0 and the matrix
    is the zero matrix. *)
Theorem specular_transmission_factor
    (Eta : Type) (fresnel_polarized : R -> Eta -> Fresnel)
    (cos_theta_i : R) (eta : Eta)
    (a_s a_p : Complex R) (cos_theta_t eta_it eta_ti : R) :
  fresnel_polarized cos_theta_i eta
  = (a_s, a_p, cos_theta_t, eta_it, eta_ti) ->
  let factor := transmission_factor cos_theta_i cos_theta_t eta_it in
  let t_s := (re a_s + 1) * (re a_s + 1) in
  let t_p := (1 - re a_p) * eta_ti * ((1 - re a_p) * eta_ti) in
  specular_transmission fresnel_polarized cos_theta_i eta
  = mkMueller
      (0.5 * factor * (t_s + t_p)) (0.5 * factor * (t_s - t_p)) 0 0
      (0.5 * factor * (t_s - t_p)) (0.5 * factor * (t_s + t_p)) 0 0
      0 0 (factor * sqrt (t_s * t_p)) 0
      0 0 0 (factor * sqrt (t_s * t_p))
  /\ (Rabs cos_theta_i > float_1e_8 ->
      factor = - eta_it * (cos_theta_t / cos_theta_i))
  /\ (Rabs cos_theta_i <= float_1e_8 ->
      factor = 0
      /\ specular_transmission fresnel_polarized cos_theta_i eta = zero).
Proof.
  intros Hf factor t_s t_p.
  assert (Hm : specular_transmission fresnel_polarized cos_theta_i eta
               = mkMueller
                   (0.5 * factor * (t_s + t_p)) (0.5 * factor * (t_s - t_p))
                   0 0
                   (0.5 * factor * (t_s - t_p)) (0.5 * factor * (t_s + t_p))
                   0 0
                   0 0 (factor * sqrt (t_s * t_p)) 0
                   0 0 0 (factor * sqrt (t_s * t_p)))
    by (unfold specular_transmission; rewrite Hf; reflexivity).
  split; [exact Hm | split].
  - intros Hgt. apply transmission_factor_above, Hgt.
  - intros Hle.
    assert (H0 : factor = 0) by (apply transmission_factor_below, Hle).
    split; [exact H0 |]. rewrite Hm, H0. by_entries ring.
Qed.

Lemma specular_transmission_factor_witness :
  Rabs 1 > float_1e_8
  /\ Rabs 0 <= float_1e_8
  /\ transmission_factor 1 1 (/ 1.5) = - / 1.5 * (1 / 1)
  /\ m00 (specular_transmission fresnel_glass 1 1.5)
     = 0.5 * transmission_factor 1 1 (/ 1.5)
       * ((-0.2 + 1) * (-0.2 + 1)
          + (1 - 0.2) * 1.5 * ((1 - 0.2) * 1.5))
  /\ transmission_factor 0 1 (/ 1.5) = 0
  /\ specular_transmission fresnel_glass 0 1.5 = zero.
Proof.
  pose proof float_1e_8_bounds as Hb.
  assert (Hgt : Rabs 1 > float_1e_8) by (rewrite Rabs_R1; lra).
  assert (Hle : Rabs 0 <= float_1e_8) by (rewrite Rabs_R0; lra).
  pose (above := @specular_transmission_factor R fresnel_glass 1 1.5
                   (mkComplex (-0.2) 0) (mkComplex 0.2 0) 1 (/ 1.5) 1.5
                   eq_refl).
  pose (below := @specular_transmission_factor R fresnel_glass 0 1.5
                   (mkComplex (-0.2) 0) (mkComplex 0.2 0) 1 (/ 1.5) 1.5
                   eq_refl).
  split; [exact Hgt | split; [exact Hle | split; [| split; [| split]]]].
  - exact (proj1 (proj2 above) Hgt).
  - exact (f_equal (@m00 R) (proj1 above)).
  - exact (proj1 (proj2 (proj2 below) Hle)).
  - exact (proj2 (proj2 (proj2 below) Hle)).
Defined.

(** ** Specular reflection *)

(** [ek::abs (ek::sqr a)] is the squared modulus of [a]. *)
Lemma reflectance_sqr_modulus (a : Complex R) :
  reflectance a = re a * re a + im a * im a.
Proof.
  destruct a as [x y]. unfold reflectance, cabs, csqr, cmul; cbn.
  replace ((x * x - y * y) * (x * x - y * y)
           + (x * y + y * x) * (x * y + y * x))
    with ((x * x + y * y) * (x * x + y * y)) by ring.
  apply sqrt_square. nra.
Qed.

Lemma cabs_sqr_modulus (a : Complex R) :
  cabs a ^ 2 = re a * re a + im a * im a.
Proof.
  destruct a as [x y]. unfold cabs; cbn.
  apply pow2_sqrt. nra.
Qed.

(** C6: at normal incidence, when the amplitudes that
    [fresnel_polarized] returns have the squared modulus
    [((eta - 1) / (eta + 1))^2], the entry (0, 0) of the reflection matrix
    is that reflectance and the diattenuation entries (0, 1) and (1, 0)
    are zero. *)
Theorem specular_reflection_normal_incidence
    (fresnel_polarized : R -> R -> Fresnel)
    (sincos_arg_diff : Complex R -> Complex R -> R * R)
    (eta : R) (a_s a_p : Complex R) (cos_theta_t eta_it eta_ti : R) :
  fresnel_polarized 1 eta = (a_s, a_p, cos_theta_t, eta_it, eta_ti) ->
  cabs a_s ^ 2 = ((eta - 1) / (eta + 1)) ^ 2 ->
  cabs a_p ^ 2 = ((eta - 1) / (eta + 1)) ^ 2 ->
  let M := specular_reflection fresnel_polarized sincos_arg_diff 1 eta in
  m00 M = ((eta - 1) / (eta + 1)) ^ 2 /\ m01 M = 0 /\ m10 M = 0.
Proof.
  intros Hf Hs Hp M. unfold M, specular_reflection. rewrite Hf.
  destruct (sincos_arg_diff a_s a_p) as [sin_delta cos_delta].
  rewrite cabs_sqr_modulus, <- reflectance_sqr_modulus in Hs, Hp.
  cbn -[reflectance]. rewrite Hs, Hp. repeat split; lra.
Qed.

Lemma specular_reflection_normal_incidence_witness :
  cabs (mkComplex (-0.2) 0) ^ 2 = ((1.5 - 1) / (1.5 + 1)) ^ 2
  /\ cabs (mkComplex 0.2 0) ^ 2 = ((1.5 - 1) / (1.5 + 1)) ^ 2
  /\ m00 (specular_reflection fresnel_glass sincos_arg_diff_glass 1 1.5)
      = ((1.5 - 1) / (1.5 + 1)) ^ 2
  /\ m01 (specular_reflection fresnel_glass sincos_arg_diff_glass 1 1.5) = 0
  /\ m10 (specular_reflection fresnel_glass sincos_arg_diff_glass 1 1.5) = 0.
Proof.
  assert (Hs : cabs (mkComplex (-0.2) 0) ^ 2 = ((1.5 - 1) / (1.5 + 1)) ^ 2)
    by (rewrite cabs_sqr_modulus; cbn; lra).
  assert (Hp : cabs (mkComplex 0.2 0) ^ 2 = ((1.5 - 1) / (1.5 + 1)) ^ 2)
    by (rewrite cabs_sqr_modulus; cbn; lra).
  split; [exact Hs | split; [exact Hp |]].
  exact (@specular_reflection_normal_incidence fresnel_glass
           sincos_arg_diff_glass 1.5
           (mkComplex (-0.2) 0) (mkComplex 0.2 0) 1 (/ 1.5) 1.5
           eq_refl Hs Hp).
Defined.

(** ** Specular reflection with NaN *)

Lemma xfloat_eqb_zero (c : xfloat) : feqb c (lit 0) = true -> c = Num 0.
Proof.
  destruct c as [x |]; cbn; [| discriminate].
  unfold Reqb. destruct (Req_dec_T x 0) as [-> | _];
    [reflexivity | discriminate].
Qed.

Lemma xsqrt_Num (x : R) : 0 <= x -> xsqrt (Num x) = Num (sqrt x).
Proof.
  intros Hx. unfold xsqrt. destruct (Rlt_dec x 0); [lra | reflexivity].
Qed.

Lemma xfloat_reflectance_Num (x y : R) :
  reflectance (mkComplex (Num x) (Num y)) = Num (x * x + y * y).
Proof.
  unfold reflectance, cabs, csqr, cmul; cbn -[xsqrt].
  rewrite xsqrt_Num by nra. f_equal.
  exact (reflectance_sqr_modulus (mkComplex x y)).
Qed.

(** A product with NaN is NaN, also when the other factor is zero: this
    is what the masked assignments of [specular_reflection] prevent. *)
Lemma xfloat_zero_times_NaN : (lit 0 * NaN)%fl = NaN.
Proof. reflexivity. Qed.

(** C4: when the joint reflectance [c] computed from the amplitudes
    compares equal to zero, the lower right 2x2 block of the reflection
    matrix is exactly zero, whatever [sincos_arg_diff] returned, NaN
    included. *)
Theorem specular_reflection_zero_joint_reflectance
    (Eta : Type) (fresnel_polarized : xfloat -> Eta -> Fresnel)
    (sincos_arg_diff : Complex xfloat -> Complex xfloat -> xfloat * xfloat)
    (cos_theta_i : xfloat) (eta : Eta)
    (a_s a_p : Complex xfloat) (cos_theta_t eta_it eta_ti : xfloat) :
  fresnel_polarized cos_theta_i eta
  = (a_s, a_p, cos_theta_t, eta_it, eta_ti) ->
  feqb (joint_reflectance a_s a_p) (lit 0) = true ->
  let M := specular_reflection fresnel_polarized sincos_arg_diff
                               cos_theta_i eta in
  m22 M = lit 0 /\ m23 M = lit 0 /\ m32 M = lit 0 /\ m33 M = lit 0.
Proof.
  intros Hf Hc M. unfold M, specular_reflection. rewrite Hf.
  destruct (sincos_arg_diff a_s a_p) as [sin_delta cos_delta].
  cbn -[joint_reflectance feqb lit fmul fneg].
  rewrite Hc, (xfloat_eqb_zero _ Hc). unfold select. cbn.
  repeat split; f_equal; ring.
Qed.

Lemma specular_reflection_zero_joint_reflectance_witness :
  feqb (joint_reflectance (mkComplex (Num 0) (Num 0))
                          (mkComplex (Num 1) (Num 0))) (lit 0) = true
  /\ m22 (specular_reflection fresnel_absorbing sincos_arg_diff_undefined
             (Num 1) (Num 1.5)) = Num 0
  /\ m23 (specular_reflection fresnel_absorbing sincos_arg_diff_undefined
             (Num 1) (Num 1.5)) = Num 0
  /\ m32 (specular_reflection fresnel_absorbing sincos_arg_diff_undefined
             (Num 1) (Num 1.5)) = Num 0
  /\ m33 (specular_reflection fresnel_absorbing sincos_arg_diff_undefined
             (Num 1) (Num 1.5)) = Num 0.
Proof.
  assert (Hc : feqb (joint_reflectance (mkComplex (Num 0) (Num 0))
                                       (mkComplex (Num 1) (Num 0)))
                    (lit 0) = true).
  { unfold joint_reflectance. rewrite !xfloat_reflectance_Num.
    cbn -[xsqrt]. rewrite xsqrt_Num by lra.
    replace ((0 * 0 + 0 * 0) * (1 * 1 + 0 * 0)) with 0 by ring.
    rewrite sqrt_0. cbn. unfold Reqb.
    destruct (Req_dec_T 0 0) as [_ | Hn]; [reflexivity | now elim Hn]. }
  split; [exact Hc |].
  exact (@specular_reflection_zero_joint_reflectance xfloat
           fresnel_absorbing sincos_arg_diff_undefined (Num 1) (Num 1.5)
           (mkComplex (Num 0) (Num 0)) (mkComplex (Num 1) (Num 0))
           (Num 1) (Num 1) (Num 1) eq_refl Hc).
Defined.

(** ** Further properties of the optical elements (exact reals) *)

(** X1: rotators compose by adding their angles. *)
Theorem rotator_add (a b : R) :
  (rotator a * rotator b)%mu = rotator (a + b).
Proof.
  unfold rotator, sincos; cbn.
  replace (2 * (a + b)) with (2 * a + 2 * b) by ring.
  rewrite sin_plus, cos_plus. by_entries ring.
Qed.

(** X2: a rotation of the reference frame by half a turn leaves every
    Stokes vector as it is: [rotator] has the period pi, and
    [rotator PI] is the identity. *)
Theorem rotator_period (theta : R) :
  rotator (theta + PI) = rotator theta /\ rotator PI = identity.
Proof.
  assert (Hp : forall t : R, rotator (t + PI) = rotator t).
  { intros t. unfold rotator, sincos; cbn.
    replace (2 * (t + PI)) with (2 * t + PI + PI) by ring.
    rewrite !neg_sin, !neg_cos. by_entries ring. }
  split; [apply Hp |].
  replace PI with (0 + PI) by ring. rewrite Hp. apply rotator_0.
Qed.

(** X3: a rotator keeps the intensity and the circular component of a
    Stokes vector, and the squared length of its linear part. *)
Theorem rotator_preserves_polarization (theta s0 s1 s2 s3 : R) :
  let S := (rotator theta * stokes s0 s1 s2 s3)%mu in
  is_stokes S
  /\ m00 S = s0 /\ m30 S = s3
  /\ m10 S * m10 S + m20 S * m20 S = s1 * s1 + s2 * s2.
Proof.
  pose proof (sincos_unit (2 * theta)) as Hu.
  unfold rotator, sincos; cbn. split; [| split; [| split]].
  - intros i; destruct i; cbn; repeat split; ring.
  - ring.
  - ring.
  - set (s := sin (2 * theta)) in *. set (c := cos (2 * theta)) in *.
    replace ((0 * s0 + c * s1 + s * s2 + 0 * s3)
             * (0 * s0 + c * s1 + s * s2 + 0 * s3)
             + (0 * s0 + - s * s1 + c * s2 + 0 * s3)
               * (0 * s0 + - s * s1 + c * s2 + 0 * s3))
      with ((s * s + c * c) * (s1 * s1 + s2 * s2)) by ring.
    rewrite Hu. ring.
Qed.

(** X4: rotating an element by [b] and then by [a] rotates it by
    [a + b]. *)
Theorem rotated_element_add (a b : R) (M : MuellerMatrix R) :
  rotated_element a (rotated_element b M) = rotated_element (b + a) M.
Proof.
  unfold rotated_element. rewrite <- (rotator_add b a).
  set (Ra := rotator a). set (Rb := rotator b).
  assert (Ht : transpose (Rb * Ra)%mu = (transpose Ra * transpose Rb)%mu)
    by (destruct Ra, Rb; by_entries ring).
  rewrite Ht, !mmul_assoc. reflexivity.
Qed.

(** X5: linear retarders compose by adding their phases, and the
    retarder of phase 0 is the identity. *)
Theorem linear_retarder_add (a b : R) :
  (linear_retarder a * linear_retarder b)%mu = linear_retarder (a + b)
  /\ linear_retarder 0 = identity.
Proof.
  split.
  - unfold linear_retarder, sincos; cbn.
    rewrite sin_plus, cos_plus. by_entries ring.
  - unfold linear_retarder, sincos; cbn. rewrite sin_0, cos_0.
    by_entries ring.
Qed.

(** X6: a linear retarder keeps the intensity and the horizontal
    component of a Stokes vector, and the squared length of the part made
    of the diagonal and the circular component. *)
Theorem linear_retarder_preserves_polarization (phase s0 s1 s2 s3 : R) :
  let S := (linear_retarder phase * stokes s0 s1 s2 s3)%mu in
  is_stokes S
  /\ m00 S = s0 /\ m10 S = s1
  /\ m20 S * m20 S + m30 S * m30 S = s2 * s2 + s3 * s3.
Proof.
  pose proof (sincos_unit phase) as Hu.
  unfold linear_retarder, sincos; cbn. split; [| split; [| split]].
  - intros i; destruct i; cbn; repeat split; ring.
  - ring.
  - ring.
  - set (s := sin phase) in *. set (c := cos phase) in *.
    replace ((0 * s0 + 0 * s1 + c * s2 + - s * s3)
             * (0 * s0 + 0 * s1 + c * s2 + - s * s3)
             + (0 * s0 + 0 * s1 + s * s2 + c * s3)
               * (0 * s0 + 0 * s1 + s * s2 + c * s3))
      with ((s * s + c * c) * (s2 * s2 + s3 * s3)) by ring.
    rewrite Hu. ring.
Qed.

(** X7: two aligned linear polarizers in a row are one polarizer whose
    value is the product of theirs; the ideal polarizer is idempotent. *)
Theorem linear_polarizer_mul (v w : R) :
  (linear_polarizer v * linear_polarizer w)%mu = linear_polarizer (v * w)
  /\ (linear_polarizer 1 * linear_polarizer 1)%mu = linear_polarizer 1.
Proof.
  split.
  - unfold linear_polarizer; cbn. by_entries lra.
  - unfold linear_polarizer; cbn. by_entries lra.
Qed.

Lemma rotated_linear_polarizer (theta w : R) :
  rotated_element theta (linear_polarizer w)
  = let a := w * 0.5 in
    let c := cos (2 * theta) in
    let s := sin (2 * theta) in
    mkMueller
      a       (a * c)     (a * s)     0
      (a * c) (a * c * c) (a * c * s) 0
      (a * s) (a * c * s) (a * s * s) 0
      0       0           0           0.
Proof.
  unfold rotated_element, rotator, linear_polarizer, sincos; cbn.
  by_entries ring.
Qed.

(** X8: Malus's law.  Unpolarized light of intensity [s0] that passes
    a polarizer rotated by [theta] and then an unrotated one leaves
    horizontally polarized with the intensity
    [v * w * cos(theta)^2 / 2 * s0]; crossed polarizers let nothing
    through. *)
Theorem malus_law (theta v w s0 : R) :
  let out := v * w * (cos theta * cos theta) / 2 * s0 in
  (linear_polarizer v * rotated_element theta (linear_polarizer w)
   * stokes s0 0 0 0)%mu = stokes out out 0 0
  /\ (linear_polarizer v * rotated_element (PI / 2) (linear_polarizer w))%mu
     = zero.
Proof.
  split.
  - rewrite rotated_linear_polarizer. unfold linear_polarizer; cbn.
    rewrite (cos_2a_cos theta). by_entries lra.
  - rewrite rotated_linear_polarizer. unfold linear_polarizer; cbn.
    replace (2 * (PI / 2)) with PI by field. rewrite sin_PI, cos_PI.
    by_entries lra.
Qed.

(** X9: a depolarizer maps every Stokes vector to unpolarized light of
    [value] times its intensity. *)
Theorem depolarizer_stokes (value s0 s1 s2 s3 : R) :
  (depolarizer value * stokes s0 s1 s2 s3)%mu = stokes (value * s0) 0 0 0.
Proof. unfold depolarizer; cbn. by_entries ring. Qed.

(** X10: depolarizers and absorbers do not depend on the orientation of
    the reference frame: rotating them as elements changes nothing. *)
Theorem rotated_element_invariant (theta value : R) :
  rotated_element theta (depolarizer value) = depolarizer value
  /\ rotated_element theta (absorber value) = absorber value.
Proof.
  pose proof (sincos_unit (2 * theta)) as Hu.
  unfold rotated_element, rotator, depolarizer, absorber, of_scalar, sincos;
    cbn.
  set (s := sin (2 * theta)) in *. set (c := cos (2 * theta)) in *.
  split.
  - by_entries ring.
  - by_entries (try ring).
    + transitivity ((s * s + c * c) * value); [ring | rewrite Hu; ring].
    + transitivity ((s * s + c * c) * value); [ring | rewrite Hu; ring].
Qed.

(** X11: an absorber scales every entry of the matrix it is composed
    with, on either side. *)
Theorem absorber_scales (value : R) (M : MuellerMatrix R) :
  (absorber value * M)%mu = build (fun i j => value * coeff M i j)
  /\ (M * absorber value)%mu = build (fun i j => value * coeff M i j).
Proof.
  destruct M. unfold absorber, of_scalar. split.
  - by_entries ring.
  - by_entries ring.
Qed.

(** X12: diattenuators whose attenuations have a non-negative product
    compose component by component. *)
Theorem diattenuator_mul (x1 y1 x2 y2 : R) :
  0 <= x1 * y1 -> 0 <= x2 * y2 ->
  (diattenuator x1 y1 * diattenuator x2 y2)%mu
  = diattenuator (x1 * x2) (y1 * y2).
Proof.
  intros H1 H2. unfold diattenuator; cbn.
  replace (x1 * x2 * (y1 * y2)) with (x1 * y1 * (x2 * y2)) by ring.
  rewrite (sqrt_mult _ _ H1 H2).
  by_entries lra.
Qed.

Lemma diattenuator_mul_witness :
  0 <= 1 * 0.5 /\ 0 <= 0.5 * 0.25
  /\ (diattenuator 1 0.5 * diattenuator 0.5 0.25)%mu
     = diattenuator (1 * 0.5) (0.5 * 0.25).
Proof.
  assert (H1 : 0 <= 1 * 0.5) by lra.
  assert (H2 : 0 <= 0.5 * 0.25) by lra.
  split; [exact H1 | split; [exact H2 |]].
  exact (@diattenuator_mul 1 0.5 0.5 0.25 H1 H2).
Defined.

(** X13: a diattenuator that attenuates both components by the same
    non-negative amount is an absorber, and one that removes the vertical
    component is a linear polarizer. *)
Theorem diattenuator_special_cases (x : R) :
  0 <= x ->
  diattenuator x x = absorber x /\ diattenuator x 0 = linear_polarizer x.
Proof.
  intros Hx. unfold diattenuator, absorber, of_scalar, linear_polarizer; cbn.
  rewrite (sqrt_square x Hx), Rmult_0_r, sqrt_0.
  split.
  - by_entries lra.
  - by_entries lra.
Qed.

Lemma diattenuator_special_cases_witness :
  0 <= 0.5
  /\ diattenuator 0.5 0.5 = absorber 0.5
  /\ diattenuator 0.5 0 = linear_polarizer 0.5.
Proof.
  assert (Hx : 0 <= 0.5) by lra.
  split; [exact Hx |]. exact (@diattenuator_special_cases 0.5 Hx).
Defined.

(** X14: reversing the direction of propagation turns the sense of a
    rotator around, and shifts a linear retarder by half a wave. *)
Theorem reverse_rotator_retarder (theta phase : R) :
  reverse (rotator theta * reverse identity)%mu = rotator (- theta)
  /\ reverse (linear_retarder phase) = linear_retarder (phase + PI).
Proof.
  split.
  - rewrite rotator_neg.
    unfold reverse, reverse_matrix, rotator, sincos; cbn. by_entries ring.
  - unfold reverse, reverse_matrix, linear_retarder, sincos; cbn.
    rewrite neg_sin, neg_cos. by_entries ring.
Qed.

(** ** Further properties of the interaction matrices *)

Lemma reflectance_nonneg (a : Complex R) : 0 <= reflectance a.
Proof. rewrite reflectance_sqr_modulus. nra. Qed.

(** X15: a specular reflection is a diattenuator with the two
    reflectances followed by a linear retarder: when [sincos_arg_diff]
    returns the sine and cosine of [delta], the reflection matrix is
    [diattenuator r_s r_p * linear_retarder (- delta)], also when the
    joint reflectance is zero. *)
Theorem specular_reflection_decomposition
    (Eta : Type) (fresnel_polarized : R -> Eta -> Fresnel)
    (sincos_arg_diff : Complex R -> Complex R -> R * R)
    (cos_theta_i : R) (eta : Eta)
    (a_s a_p : Complex R) (cos_theta_t eta_it eta_ti delta : R) :
  fresnel_polarized cos_theta_i eta
  = (a_s, a_p, cos_theta_t, eta_it, eta_ti) ->
  sincos_arg_diff a_s a_p = (sin delta, cos delta) ->
  specular_reflection fresnel_polarized sincos_arg_diff cos_theta_i eta
  = (diattenuator (reflectance a_s) (reflectance a_p)
     * linear_retarder (- delta))%mu.
Proof.
  intros Hf Hd. unfold specular_reflection. rewrite Hf, Hd.
  unfold diattenuator, linear_retarder, sincos, joint_reflectance.
  cbn -[reflectance]. rewrite sin_neg, cos_neg.
  set (c := sqrt (reflectance a_s * reflectance a_p)).
  unfold select, Reqb. destruct (Req_dec_T c 0) as [Hc | Hc].
  - rewrite Hc. by_entries ring.
  - by_entries ring.
Qed.

Lemma specular_reflection_decomposition_witness :
  sincos_arg_diff_glass (mkComplex (-0.2) 0) (mkComplex 0.2 0)
  = (sin PI, cos PI)
  /\ specular_reflection fresnel_glass sincos_arg_diff_glass 1 1.5
     = (diattenuator (reflectance (mkComplex (-0.2) 0))
                     (reflectance (mkComplex 0.2 0))
        * linear_retarder (- PI))%mu.
Proof.
  assert (Hd : sincos_arg_diff_glass (mkComplex (-0.2) 0) (mkComplex 0.2 0)
               = (sin PI, cos PI))
    by (rewrite sin_PI, cos_PI; reflexivity).
  split; [exact Hd |].
  exact (@specular_reflection_decomposition R fresnel_glass
           sincos_arg_diff_glass 1 1.5 (mkComplex (-0.2) 0)
           (mkComplex 0.2 0) 1 (/ 1.5) 1.5 PI eq_refl Hd).
Defined.

(** X16: a specular reflection does not depolarize: when the phase terms
    that [sincos_arg_diff] returns lie on the unit circle, the entries of
    the reflection matrix satisfy
    [m00^2 = m01^2 + m22^2 + m23^2]. *)
Theorem specular_reflection_nondepolarizing
    (Eta : Type) (fresnel_polarized : R -> Eta -> Fresnel)
    (sincos_arg_diff : Complex R -> Complex R -> R * R)
    (cos_theta_i : R) (eta : Eta)
    (a_s a_p : Complex R) (cos_theta_t eta_it eta_ti sin_delta cos_delta : R) :
  fresnel_polarized cos_theta_i eta
  = (a_s, a_p, cos_theta_t, eta_it, eta_ti) ->
  sincos_arg_diff a_s a_p = (sin_delta, cos_delta) ->
  sin_delta * sin_delta + cos_delta * cos_delta = 1 ->
  let M := specular_reflection fresnel_polarized sincos_arg_diff
                               cos_theta_i eta in
  m00 M * m00 M = m01 M * m01 M + m22 M * m22 M + m23 M * m23 M.
Proof.
  intros Hf Hd Hu M. unfold M, specular_reflection. rewrite Hf, Hd.
  unfold joint_reflectance. cbn -[reflectance].
  pose proof (reflectance_nonneg a_s) as Hs.
  pose proof (reflectance_nonneg a_p) as Hp.
  set (r_s := reflectance a_s) in *. set (r_p := reflectance a_p) in *.
  assert (Hc : sqrt (r_s * r_p) * sqrt (r_s * r_p) = r_s * r_p)
    by (apply sqrt_sqrt; nra).
  set (c := sqrt (r_s * r_p)) in *.
  unfold select, Reqb. destruct (Req_dec_T c 0) as [Hc0 | Hc0].
  - rewrite Hc0 in Hc. nra.
  - assert (Hb : c * cos_delta * (c * cos_delta)
                 + c * sin_delta * (c * sin_delta) = r_s * r_p).
    { transitivity
        ((c * c) * (sin_delta * sin_delta + cos_delta * cos_delta));
        [ring | rewrite Hu, Hc; ring]. }
    lra.
Qed.

Lemma specular_reflection_nondepolarizing_witness :
  0 * 0 + -1 * -1 = 1
  /\ m00 (specular_reflection fresnel_glass sincos_arg_diff_glass 1 1.5)
     * m00 (specular_reflection fresnel_glass sincos_arg_diff_glass 1 1.5)
     = m01 (specular_reflection fresnel_glass sincos_arg_diff_glass 1 1.5)
       * m01 (specular_reflection fresnel_glass sincos_arg_diff_glass 1 1.5)
       + m22 (specular_reflection fresnel_glass sincos_arg_diff_glass 1 1.5)
         * m22 (specular_reflection fresnel_glass sincos_arg_diff_glass 1 1.5)
       + m23 (specular_reflection fresnel_glass sincos_arg_diff_glass 1 1.5)
         * m23 (specular_reflection fresnel_glass sincos_arg_diff_glass 1 1.5).
Proof.
  assert (Hu : 0 * 0 + -1 * -1 = 1) by lra.
  split; [exact Hu |].
  exact (@specular_reflection_nondepolarizing R fresnel_glass
           sincos_arg_diff_glass 1 1.5 (mkComplex (-0.2) 0)
           (mkComplex 0.2 0) 1 (/ 1.5) 1.5 0 (-1) eq_refl eq_refl Hu).
Defined.

(** X17: a specular transmission is the diattenuator of the two
    transmittances scaled by the unit conversion factor. *)
Theorem specular_transmission_decomposition
    (Eta : Type) (fresnel_polarized : R -> Eta -> Fresnel)
    (cos_theta_i : R) (eta : Eta)
    (a_s a_p : Complex R) (cos_theta_t eta_it eta_ti : R) :
  fresnel_polarized cos_theta_i eta
  = (a_s, a_p, cos_theta_t, eta_it, eta_ti) ->
  specular_transmission fresnel_polarized cos_theta_i eta
  = (absorber (transmission_factor cos_theta_i cos_theta_t eta_it)
     * diattenuator (fsqr (real a_s + 1))
                    (fsqr ((1 - real a_p) * eta_ti)%R))%mu.
Proof.
  intros Hf. unfold specular_transmission. rewrite Hf.
  set (factor := transmission_factor cos_theta_i cos_theta_t eta_it).
  unfold absorber, of_scalar, diattenuator. cbn -[fsqr].
  by_entries lra.
Qed.

Lemma specular_transmission_decomposition_witness :
  specular_transmission fresnel_glass 1 1.5
  = (absorber (transmission_factor 1 1 (/ 1.5))
     * diattenuator (fsqr (real (mkComplex (-0.2) 0) + 1))
                    (fsqr ((1 - real (mkComplex 0.2 0)) * 1.5)%R))%mu.
Proof.
  exact (@specular_transmission_decomposition R fresnel_glass 1 1.5
           (mkComplex (-0.2) 0) (mkComplex 0.2 0) 1 (/ 1.5) 1.5 eq_refl).
Defined.

(** ** Edge cases with NaN *)

Lemma xfloat_transmission_factor_zero (cos_theta_i cos_theta_t : xfloat)
    (e : R) :
  cos_theta_i = NaN
  \/ (exists c : R, cos_theta_i = Num c /\ Rabs c <= float_1e_8) ->
  transmission_factor cos_theta_i cos_theta_t (Num e) = Num 0.
Proof.
  intros [-> | (c & -> & Hc)]; unfold transmission_factor, fgtb, select.
  - cbn. f_equal. ring.
  - cbn. unfold Rltb. destruct (Rlt_dec _ _) as [Hlt | _]; [lra |].
    f_equal. ring.
Qed.

(** X18: when the incidence cosine is NaN, or a number of absolute value
    at most [1e-8f], zero included, and [fresnel_polarized] returns
    numbers for the real parts of the amplitudes and for the two index
    ratios, [specular_transmission] returns the zero matrix, whatever
    [cos_theta_t] is: the quotient [cos_theta_t / cos_theta_i], which may
    be NaN, is discarded. *)
Theorem specular_transmission_nan_safe
    (Eta : Type) (fresnel_polarized : xfloat -> Eta -> Fresnel)
    (cos_theta_i : xfloat) (eta : Eta)
    (re_s re_p e_it e_ti : R) (im_s im_p cos_theta_t : xfloat) :
  fresnel_polarized cos_theta_i eta
  = (mkComplex (Num re_s) im_s, mkComplex (Num re_p) im_p,
     cos_theta_t, Num e_it, Num e_ti) ->
  cos_theta_i = NaN
  \/ (exists c : R, cos_theta_i = Num c /\ Rabs c <= float_1e_8) ->
  specular_transmission fresnel_polarized cos_theta_i eta = zero.
Proof.
  intros Hf Hc. unfold specular_transmission. rewrite Hf.
  rewrite (xfloat_transmission_factor_zero cos_theta_t e_it Hc).
  cbn -[xsqrt]. rewrite xsqrt_Num by (apply Rmult_le_pos; apply Rle_0_sqr).
  apply mueller_ext; intros i j; destruct i, j; cbn; f_equal; ring.
Qed.

Lemma specular_transmission_nan_safe_witness :
  (Num 1 / Num 0)%fl = NaN
  /\ (Num 0 = NaN
      \/ (exists c : R, Num 0 = Num c /\ Rabs c <= float_1e_8))
  /\ specular_transmission fresnel_absorbing (Num 0) (Num 1.5) = zero.
Proof.
  assert (Hc : Num 0 = NaN
               \/ (exists c : R, Num 0 = Num c /\ Rabs c <= float_1e_8)).
  { right. exists 0. split; [reflexivity |].
    rewrite Rabs_R0. apply Rlt_le, float_1e_8_bounds. }
  split; [| split; [exact Hc |]].
  - cbn. destruct (Req_dec_T 0 0) as [_ | Hn]; [reflexivity | now elim Hn].
  - exact (@specular_transmission_nan_safe xfloat fresnel_absorbing (Num 0)
             (Num 1.5) 0 1 1 1 (Num 0) (Num 0) (Num 1) eq_refl Hc).
Defined.

(** ** Further properties of the change of reference frames *)

Section PolarBases.
Variables forward u : Vector3 R.
Hypothesis forward_unit : dot forward forward = 1.
Hypothesis u_unit : dot u u = 1.
Hypothesis u_orthogonal : dot forward u = 0.

Lemma dot_basis_at (r1 r2 a b : R) :
  dot (basis_at forward u r1 a) (basis_at forward u r2 b)
  = r1 * r2 * cos (b - a).
Proof.
  rewrite cos_minus.
  transitivity
    (r1 * r2 * (cos a * cos b * dot u u
                + sin a * sin b * (dot forward forward * dot u u
                                   - dot forward u * dot forward u))).
  - destruct forward, u. unfold basis_at, dot, cross; cbn. ring.
  - rewrite forward_unit, u_unit, u_orthogonal. ring.
Qed.

Lemma triple_basis_at (r1 r2 a b : R) :
  dot forward (cross (basis_at forward u r1 a) (basis_at forward u r2 b))
  = r1 * r2 * sin (b - a).
Proof.
  rewrite sin_minus.
  transitivity
    (r1 * r2 * (cos a * sin b - sin a * cos b)
     * (dot forward forward * dot u u - dot forward u * dot forward u)).
  - destruct forward, u. unfold basis_at, dot, cross; cbn. ring.
  - rewrite forward_unit, u_unit, u_orthogonal. ring.
Qed.

Lemma norm_basis_at (r a : R) : 0 < r -> norm (basis_at forward u r a) = r.
Proof.
  intros Hr. unfold norm. change (@fsqrt R R_ops) with sqrt.
  rewrite dot_basis_at.
  replace (a - a) with 0 by ring. rewrite cos_0, Rmult_1_r.
  apply sqrt_square. lra.
Qed.

Lemma normalize_basis_at (r a : R) :
  0 < r -> normalize (basis_at forward u r a) = basis_at forward u 1 a.
Proof.
  intros Hr. unfold normalize. rewrite (norm_basis_at a Hr).
  unfold basis_at; cbn. f_equal; field; lra.
Qed.
End PolarBases.

Lemma rotator_sincos_ext (a b : R) :
  sin a = sin b -> cos a = cos b -> rotator a = rotator b.
Proof.
  intros Hs Hc. unfold rotator, sincos; cbn.
  rewrite (sin_2a a), (sin_2a b), (cos_2a a), (cos_2a b), Hs, Hc.
  reflexivity.
Qed.

Lemma sin_acos_cos (d : R) : sin (acos (cos d)) = Rabs (sin d).
Proof.
  rewrite sin_acos by apply COS_bound.
  replace (1 - (cos d)²) with ((sin d)²)
    by (pose proof (sin2_cos2 d); lra).
  apply sqrt_Rsqr_abs.
Qed.

(** The angle [rotate_stokes_basis] computes between two bases given by
    their angles has the sine and the cosine of the difference of the
    angles. *)
Lemma stokes_basis_angle_basis_at (forward u : Vector3 R) (r1 r2 a b : R) :
  dot forward forward = 1 -> dot u u = 1 -> dot forward u = 0 ->
  0 < r1 -> 0 < r2 ->
  let theta :=
    stokes_basis_angle unit_angle_spec forward
      (basis_at forward u r1 a) (basis_at forward u r2 b) in
  sin theta = sin (b - a) /\ cos theta = cos (b - a).
Proof.
  intros Hf Hu Hfu Hr1 Hr2 theta. unfold theta, stokes_basis_angle.
  rewrite (triple_basis_at Hf Hu Hfu).
  rewrite !(normalize_basis_at Hf Hu Hfu) by assumption.
  unfold unit_angle_spec. rewrite (dot_basis_at Hf Hu Hfu).
  replace (1 * 1 * cos (b - a)) with (cos (b - a)) by ring.
  set (d := b - a).
  assert (Hpos : 0 < r1 * r2) by (apply Rmult_lt_0_compat; assumption).
  unfold select. cbn [fltb fmul lit R_ops]. unfold Rltb.
  destruct (Rlt_dec (r1 * r2 * sin d) 0) as [Hneg | Hnn].
  - assert (Hs : sin d < 0) by nra.
    rewrite Rmult_comm_opp_1, sin_neg, cos_neg, sin_acos_cos.
    rewrite cos_acos by apply COS_bound.
    split; [| reflexivity]. rewrite Rabs_left by exact Hs. ring.
  - assert (Hs : 0 <= sin d) by nra.
    rewrite sin_acos_cos, cos_acos by apply COS_bound.
    split; [| reflexivity]. apply Rabs_right. lra.
Qed.

Lemma rotate_stokes_basis_basis_at (forward u : Vector3 R) (r1 r2 a b : R) :
  dot forward forward = 1 -> dot u u = 1 -> dot forward u = 0 ->
  0 < r1 -> 0 < r2 ->
  rotate_stokes_basis unit_angle_spec forward
    (basis_at forward u r1 a) (basis_at forward u r2 b)
  = rotator (b - a).
Proof.
  intros Hf Hu Hfu Hr1 Hr2. unfold rotate_stokes_basis.
  destruct (stokes_basis_angle_basis_at a b Hf Hu Hfu Hr1 Hr2) as [Hs Hc].
  apply rotator_sincos_ext; assumption.
Qed.

(** X20: with [unit_angle] the angle between unit vectors, for a unit
    [forward] and bases of any positive length at the angles [a] and [b]
    in the plane orthogonal to it, measured from a unit vector [u]
    towards [cross forward u], [rotate_stokes_basis] is the rotator of the
    signed angle [b - a] from the current to the target basis. *)
Theorem rotate_stokes_basis_signed_angle
    (forward u : Vector3 R) (r1 r2 a b : R) :
  dot forward forward = 1 -> dot u u = 1 -> dot forward u = 0 ->
  0 < r1 -> 0 < r2 ->
  rotate_stokes_basis unit_angle_spec forward
    (basis_at forward u r1 a) (basis_at forward u r2 b)
  = rotator (b - a).
Proof. exact (@rotate_stokes_basis_basis_at forward u r1 r2 a b). Qed.

Lemma rotate_stokes_basis_signed_angle_witness :
  dot (mkVector3 0 0 1) (mkVector3 0 0 1) = 1
  /\ dot (mkVector3 1 0 0) (mkVector3 1 0 0) = 1
  /\ dot (mkVector3 0 0 1) (mkVector3 1 0 0) = 0
  /\ 0 < 1 /\ 0 < 2
  /\ rotate_stokes_basis unit_angle_spec (mkVector3 0 0 1)
       (basis_at (mkVector3 0 0 1) (mkVector3 1 0 0) 1 0)
       (basis_at (mkVector3 0 0 1) (mkVector3 1 0 0) 2 (- (PI / 4)))
     = rotator (- (PI / 4) - 0).
Proof.
  assert (Hf : dot (mkVector3 0 0 1) (mkVector3 0 0 1) = 1)
    by (unfold dot; cbn; lra).
  assert (Hu : dot (mkVector3 1 0 0) (mkVector3 1 0 0) = 1)
    by (unfold dot; cbn; lra).
  assert (Hfu : dot (mkVector3 0 0 1) (mkVector3 1 0 0) = 0)
    by (unfold dot; cbn; lra).
  assert (H1 : 0 < 1) by lra.
  assert (H2 : 0 < 2) by lra.
  repeat (split; [assumption |]).
  exact (@rotate_stokes_basis_signed_angle (mkVector3 0 0 1)
           (mkVector3 1 0 0) 1 2 0 (- (PI / 4)) Hf Hu Hfu H1 H2).
Defined.

(** X21: changes of basis about one direction chain, and changing back
    undoes the change: from the basis at angle [a] to the one at [b] and
    on to the one at [c] is the change from [a] to [c], and from [a] to
    [b] and back is the identity. *)
Theorem rotate_stokes_basis_chain (forward u : Vector3 R) (a b c : R) :
  dot forward forward = 1 -> dot u u = 1 -> dot forward u = 0 ->
  let basis := basis_at forward u 1 in
  (rotate_stokes_basis unit_angle_spec forward (basis b) (basis c)
   * rotate_stokes_basis unit_angle_spec forward (basis a) (basis b))%mu
  = rotate_stokes_basis unit_angle_spec forward (basis a) (basis c)
  /\ (rotate_stokes_basis unit_angle_spec forward (basis b) (basis a)
      * rotate_stokes_basis unit_angle_spec forward (basis a) (basis b))%mu
     = identity.
Proof.
  intros Hf Hu Hfu basis. unfold basis.
  rewrite !(rotate_stokes_basis_basis_at _ _ Hf Hu Hfu Rlt_0_1 Rlt_0_1).
  rewrite !rotator_add. split.
  - f_equal. ring.
  - replace (a - b + (b - a)) with 0 by ring. apply rotator_0.
Qed.

Lemma rotate_stokes_basis_chain_witness :
  dot (mkVector3 0 0 1) (mkVector3 0 0 1) = 1
  /\ dot (mkVector3 1 0 0) (mkVector3 1 0 0) = 1
  /\ dot (mkVector3 0 0 1) (mkVector3 1 0 0) = 0
  /\ (rotate_stokes_basis unit_angle_spec (mkVector3 0 0 1)
        (basis_at (mkVector3 0 0 1) (mkVector3 1 0 0) 1 1)
        (basis_at (mkVector3 0 0 1) (mkVector3 1 0 0) 1 0)
      * rotate_stokes_basis unit_angle_spec (mkVector3 0 0 1)
          (basis_at (mkVector3 0 0 1) (mkVector3 1 0 0) 1 0)
          (basis_at (mkVector3 0 0 1) (mkVector3 1 0 0) 1 1))%mu
     = identity.
Proof.
  assert (Hf : dot (mkVector3 0 0 1) (mkVector3 0 0 1) = 1)
    by (unfold dot; cbn; lra).
  assert (Hu : dot (mkVector3 1 0 0) (mkVector3 1 0 0) = 1)
    by (unfold dot; cbn; lra).
  assert (Hfu : dot (mkVector3 0 0 1) (mkVector3 1 0 0) = 0)
    by (unfold dot; cbn; lra).
  repeat (split; [assumption |]).
  exact (proj2 (@rotate_stokes_basis_chain (mkVector3 0 0 1)
                  (mkVector3 1 0 0) 0 1 2 Hf Hu Hfu)).
Defined.

Lemma rotate_stokes_basis_same
    (unit_angle : Vector3 R -> Vector3 R -> R) (forward b : Vector3 R) :
  (forall a : Vector3 R, dot a a = 1 -> unit_angle a a = 0) ->
  b <> mkVector3 0 0 0 ->
  rotate_stokes_basis unit_angle forward b b = identity.
Proof.
  intros Hangle Hb. unfold rotate_stokes_basis, stokes_basis_angle.
  rewrite triple_product_self.
  rewrite Hangle by (apply normalize_unit; exact Hb).
  unfold select; cbn [fltb lit R_ops]. unfold Rltb.
  destruct (Rlt_dec 0 0) as [Hlt | _]; [lra |].
  apply rotator_0.
Qed.

(** X22: when on each side the target basis is the current basis, and
    [unit_angle] gives 0 for a unit vector and itself,
    [rotate_mueller_basis] returns the matrix unchanged. *)
Theorem rotate_mueller_basis_same
    (unit_angle : Vector3 R -> Vector3 R -> R) (M : MuellerMatrix R)
    (in_forward in_basis out_forward out_basis : Vector3 R) :
  (forall a : Vector3 R, dot a a = 1 -> unit_angle a a = 0) ->
  in_basis <> mkVector3 0 0 0 ->
  out_basis <> mkVector3 0 0 0 ->
  rotate_mueller_basis unit_angle M in_forward in_basis in_basis
                       out_forward out_basis out_basis
  = M.
Proof.
  intros Hangle Hin Hout. unfold rotate_mueller_basis.
  rewrite !rotate_stokes_basis_same by assumption.
  replace (transpose identity) with (identity (F := R)) by reflexivity.
  rewrite mmul_identity_l. apply mmul_identity_r.
Qed.

Lemma rotate_mueller_basis_same_witness :
  (forall a : Vector3 R, dot a a = 1 -> unit_angle_spec a a = 0)
  /\ mkVector3 1 0 0 <> mkVector3 0 0 0
  /\ mkVector3 0 2 0 <> mkVector3 0 0 0
  /\ rotate_mueller_basis unit_angle_spec (linear_polarizer 1)
       (mkVector3 0 0 1) (mkVector3 1 0 0) (mkVector3 1 0 0)
       (mkVector3 0 0 (-1)) (mkVector3 0 2 0) (mkVector3 0 2 0)
     = linear_polarizer 1.
Proof.
  assert (Hin : mkVector3 1 0 0 <> mkVector3 0 0 0).
  { intros E. apply (f_equal (@vx R)) in E. cbn in E. lra. }
  assert (Hout : mkVector3 0 2 0 <> mkVector3 0 0 0).
  { intros E. apply (f_equal (@vy R)) in E. cbn in E. lra. }
  split; [exact unit_angle_spec_self | split; [exact Hin | split;
    [exact Hout |]]].
  exact (@rotate_mueller_basis_same unit_angle_spec (linear_polarizer 1)
           (mkVector3 0 0 1) (mkVector3 1 0 0)
           (mkVector3 0 0 (-1)) (mkVector3 0 2 0)
           unit_angle_spec_self Hin Hout).
Defined.

Lemma rotator_conjugation_invariant (theta value : R) :
  (rotator theta * depolarizer value * transpose (rotator theta))%mu
  = depolarizer value
  /\ (rotator theta * absorber value * transpose (rotator theta))%mu
     = absorber value.
Proof.
  pose proof (sincos_unit (2 * theta)) as Hu.
  unfold rotator, depolarizer, absorber, of_scalar, sincos; cbn.
  set (s := sin (2 * theta)) in *. set (c := cos (2 * theta)) in *.
  split.
  - by_entries ring.
  - by_entries (try ring).
    + transitivity ((s * s + c * c) * value); [ring | rewrite Hu; ring].
    + transitivity ((s * s + c * c) * value); [ring | rewrite Hu; ring].
Qed.

(** X23: a change of the reference basis leaves depolarizers and
    absorbers as they are, for all directions and bases and whatever
    [unit_angle] returns. *)
Theorem rotate_mueller_basis_collinear_invariant
    (unit_angle : Vector3 R -> Vector3 R -> R) (value : R)
    (forward basis_current basis_target : Vector3 R) :
  rotate_mueller_basis_collinear unit_angle (depolarizer value)
    forward basis_current basis_target
  = depolarizer value
  /\ rotate_mueller_basis_collinear unit_angle (absorber value)
       forward basis_current basis_target
     = absorber value.
Proof.
  unfold rotate_mueller_basis_collinear, rotate_stokes_basis.
  apply rotator_conjugation_invariant.
Qed.

(** X24: re-expressing a Mueller matrix in other bases and then back in
    the first ones gives the matrix back, for unit directions and bases
    given by their angles on the input and on the output side. *)
Theorem rotate_mueller_basis_round_trip
    (M : MuellerMatrix R) (in_forward in_u out_forward out_u : Vector3 R)
    (a b c d : R) :
  dot in_forward in_forward = 1 -> dot in_u in_u = 1 ->
  dot in_forward in_u = 0 ->
  dot out_forward out_forward = 1 -> dot out_u out_u = 1 ->
  dot out_forward out_u = 0 ->
  let in_basis := basis_at in_forward in_u 1 in
  let out_basis := basis_at out_forward out_u 1 in
  rotate_mueller_basis unit_angle_spec
    (rotate_mueller_basis unit_angle_spec M
       in_forward (in_basis a) (in_basis b)
       out_forward (out_basis c) (out_basis d))
    in_forward (in_basis b) (in_basis a)
    out_forward (out_basis d) (out_basis c)
  = M.
Proof.
  intros Hif Hiu Hifu Hof Hou Hofu in_basis out_basis.
  unfold rotate_mueller_basis, in_basis, out_basis.
  rewrite !(rotate_stokes_basis_basis_at _ _ Hif Hiu Hifu Rlt_0_1 Rlt_0_1).
  rewrite !(rotate_stokes_basis_basis_at _ _ Hof Hou Hofu Rlt_0_1 Rlt_0_1).
  replace (a - b) with (- (b - a)) by ring.
  replace (c - d) with (- (d - c)) by ring.
  rewrite !rotator_neg, transpose_involutive.
  set (Ri := rotator (b - a)). set (Ro := rotator (d - c)).
  replace (transpose Ro * (Ro * M * transpose Ri) * Ri)%mu
    with ((transpose Ro * Ro) * M * (transpose Ri * Ri))%mu
    by (rewrite !mmul_assoc; reflexivity).
  unfold Ri, Ro. rewrite !rotator_transpose_l.
  rewrite mmul_identity_l. apply mmul_identity_r.
Qed.

Lemma rotate_mueller_basis_round_trip_witness :
  dot (mkVector3 0 0 1) (mkVector3 0 0 1) = 1
  /\ dot (mkVector3 1 0 0) (mkVector3 1 0 0) = 1
  /\ dot (mkVector3 0 0 1) (mkVector3 1 0 0) = 0
  /\ dot (mkVector3 0 1 0) (mkVector3 0 1 0) = 1
  /\ dot (mkVector3 0 1 0) (mkVector3 1 0 0) = 0
  /\ rotate_mueller_basis unit_angle_spec
       (rotate_mueller_basis unit_angle_spec (linear_polarizer 1)
          (mkVector3 0 0 1)
          (basis_at (mkVector3 0 0 1) (mkVector3 1 0 0) 1 0)
          (basis_at (mkVector3 0 0 1) (mkVector3 1 0 0) 1 1)
          (mkVector3 0 1 0)
          (basis_at (mkVector3 0 1 0) (mkVector3 1 0 0) 1 2)
          (basis_at (mkVector3 0 1 0) (mkVector3 1 0 0) 1 3))
       (mkVector3 0 0 1)
       (basis_at (mkVector3 0 0 1) (mkVector3 1 0 0) 1 1)
       (basis_at (mkVector3 0 0 1) (mkVector3 1 0 0) 1 0)
       (mkVector3 0 1 0)
       (basis_at (mkVector3 0 1 0) (mkVector3 1 0 0) 1 3)
       (basis_at (mkVector3 0 1 0) (mkVector3 1 0 0) 1 2)
     = linear_polarizer 1.
Proof.
  assert (Hif : dot (mkVector3 0 0 1) (mkVector3 0 0 1) = 1)
    by (unfold dot; cbn; lra).
  assert (Hu : dot (mkVector3 1 0 0) (mkVector3 1 0 0) = 1)
    by (unfold dot; cbn; lra).
  assert (Hifu : dot (mkVector3 0 0 1) (mkVector3 1 0 0) = 0)
    by (unfold dot; cbn; lra).
  assert (Hof : dot (mkVector3 0 1 0) (mkVector3 0 1 0) = 1)
    by (unfold dot; cbn; lra).
  assert (Hofu : dot (mkVector3 0 1 0) (mkVector3 1 0 0) = 0)
    by (unfold dot; cbn; lra).
  repeat (split; [assumption |]).
  exact (@rotate_mueller_basis_round_trip (linear_polarizer 1)
           (mkVector3 0 0 1) (mkVector3 1 0 0)
           (mkVector3 0 1 0) (mkVector3 1 0 0) 0 1 2 3
           Hif Hu Hifu Hof Hu Hofu).
Defined.

(** X25: the collinear change of basis is the rotation of the matrix as
    an element by the opposite of the angle between the bases. *)
Theorem rotate_mueller_basis_collinear_rotated_element
    (unit_angle : Vector3 R -> Vector3 R -> R) (M : MuellerMatrix R)
    (forward basis_current basis_target : Vector3 R) :
  rotate_mueller_basis_collinear unit_angle M forward basis_current
                                 basis_target
  = rotated_element
      (- stokes_basis_angle unit_angle forward basis_current basis_target) M.
Proof.
  unfold rotate_mueller_basis_collinear, rotate_stokes_basis,
    rotated_element.
  rewrite rotator_neg, transpose_involutive. reflexivity.
Qed.
